(** * A shallow embedding of the compile-time Base64 codec

    Source: [ct-string.hpp], [ct-base64.hpp], [ct-base64-impl.h].

    The codec is written as variadic-template recursion over character
    packs.  A pack [char... chars] is a finite sequence of [char]s, so a
    [ct::string<chars...>] is embedded as the list of its characters, a
    class template with partial specialisations as a function defined by
    cases on that list (the most specialised pattern first), and the
    [static_assert] of the decoder as an explicit failure outcome.

    A [char] is embedded as Rocq's 8-bit [ascii].  Where the source does
    integer arithmetic on a character the embedding uses the value of its
    8-bit pattern, a [Z] in [0, 256).  The source only ever combines a
    character with a mask below 256 or compares it with a 7-bit literal,
    which gives the same result on a platform whose [char] is signed
    (lemmas [mask_signed] and [indexOf_signed] below).  The conversion of
    an integer in [0, 255] to a [char] template argument is taken as the
    character with that 8-bit pattern. *)

From Stdlib Require Import ZArith List Ascii String Bool Lia Btauto.
From coqutil Require Import Z.prove_Zeq_bitwise.
Import ListNotations.

Local Open Scope Z_scope.

Declare Scope cbits_scope.
Infix "<<" := Z.shiftl (at level 32, left associativity) : cbits_scope.
Infix ">>" := Z.shiftr (at level 32, left associativity) : cbits_scope.
Infix ".&" := Z.land (at level 36, left associativity) : cbits_scope.
Infix ".|" := Z.lor (at level 38, left associativity) : cbits_scope.
Local Open Scope cbits_scope.

(** ** ct-string.hpp *)

Module ct.

(** [typedef char b64char;] *)
Definition b64char : Type := ascii.

(** [template<char... str> struct string]: the pack [str...]. *)
Definition string : Type := list ascii.

(** [operator+(string<str0...>, string<str1...>)] is
    [string<str0..., str1...>]. *)
Definition concat (s0 s1 : string) : string := s0 ++ s1.

(** The integer value of a character's 8-bit pattern. *)
Definition code (c : ascii) : Z := Z.of_N (N_of_ascii c).

(** Conversion of an integer template argument to [char]: the low 8 bits. *)
Definition to_char (z : Z) : ascii := ascii_of_N (Z.to_N (z mod 256)).

(** [typedef uint8_t index_type;] and the conversion [index_type(e)]. *)
Definition index_type (z : Z) : Z := z mod 256.


End ct.

Infix "+++" := ct.concat (at level 60, right associativity).

(** ** ct-base64-impl.h *)

Module impl.
Import ct.

(** The padding character the specialisations match on. *)
Definition pad : b64char := "="%char.

Definition is_pad (c : b64char) : bool := Ascii.eqb c pad.

(** [static constexpr const b64char dict[64]] *)
Definition dict_table : list b64char :=
  [ "A";"B";"C";"D";"E";"F";"G";"H";"I";"J";"K";"L";"M";"N";"O";"P";"Q";"R";"S";"T";"U";"V";"W";"X";"Y";"Z";
    "a";"b";"c";"d";"e";"f";"g";"h";"i";"j";"k";"l";"m";"n";"o";"p";"q";"r";"s";"t";"u";"v";"w";"x";"y";"z";
    "0";"1";"2";"3";"4";"5";"6";"7";"8";"9";"@";"&" ]%char.

(** [dict[i]]; every index the encoder forms is in range
    (lemmas [index1_fits] to [index4_fits]). *)
Definition dict (i : Z) : b64char := nth (Z.to_nat i) dict_table zero.

(** The body of [indexOf], on the integer value the character is
    promoted to in the comparisons and subtractions. *)
Definition indexOf_value (c : Z) : Z :=
  index_type
    (if (code "A"%char <=? c) && (c <=? code "Z"%char) then 00 + c - code "A"%char
     else if (code "a"%char <=? c) && (c <=? code "z"%char) then 26 + c - code "a"%char
     else if (code "0"%char <=? c) && (c <=? code "9"%char) then 52 + c - code "0"%char
     else if c =? code "@"%char then 62
     else if c =? code "&"%char then 63
     else 64).

Definition indexOf (c : b64char) : Z := indexOf_value (code c).

Module checks.

(** [is_base64_chars_v]: the specialisations [<head, '=', '='>] and
    [<head, '='>] are more specialised than [<head, tail...>] and are
    selected exactly when the tail is one or two padding characters. *)
Fixpoint is_base64_chars_v (chars : string) : bool :=
  match chars with
  | [] => true
  | head :: tail =>
      match tail with
      | [p1; p2] =>
          if is_pad p1 && is_pad p2 then indexOf head <? 64
          else (indexOf head <? 64) && is_base64_chars_v tail
      | [p1] =>
          if is_pad p1 then indexOf head <? 64
          else (indexOf head <? 64) && is_base64_chars_v tail
      | _ => (indexOf head <? 64) && is_base64_chars_v tail
      end
  end.

Definition is_base64_valid_length_v (n : nat) : bool :=
  (Z.of_nat n mod 4 =? 0).

Definition is_base64_encoding_v (chars : string) : bool :=
  is_base64_valid_length_v (List.length chars) && is_base64_chars_v chars.

End checks.

(** *** Encoder *)

Fixpoint CTBase64Encoder (chars : string) : string :=
  match chars with
  | c1 :: c2 :: c3 :: chars =>
      let c1 := code c1 in let c2 := code c2 in let c3 := code c3 in
      [ dict ((c1 .& 0xFC) >> 2);
        dict (((c1 .& 0x03) << 4) .| ((c2 .& 0xF0) >> 4));
        dict (((c2 .& 0x0F) << 2) .| ((c3 .& 0xC0) >> 6));
        dict (c3 .& 0x3F) ]
      +++ CTBase64Encoder chars
  | [c1; c2] =>
      let c1 := code c1 in let c2 := code c2 in
      [ dict ((c1 .& 0xFC) >> 2);
        dict (((c1 .& 0x03) << 4) .| ((c2 .& 0xF0) >> 4));
        dict ((c2 .& 0x0F) << 2); pad ]
  | [c1] =>
      let c1 := code c1 in
      [ dict ((c1 .& 0xFC) >> 2);
        dict ((c1 .& 0x03) << 4); pad; pad ]
  | [] => []
  end.

(** *** Decoder *)

(** [template<int32_t s> using string_from_int]: always three characters. *)
Definition string_from_int (s : Z) : string :=
  [ to_char ((s >> 16) .& 0xFF); to_char ((s >> 8) .& 0xFF); to_char (s .& 0xFF) ].

(** [b64_decoder_impl]: the primary template defines [decoded_string]
    in terms of itself and so has no value ([None]); it is what an
    incomplete trailing group of one to three characters selects. *)
Fixpoint b64_decoder_impl (chars : string) : option string :=
  match chars with
  | [] => Some []
  | c1 :: c2 :: c3 :: c4 :: chars =>
      match chars with
      | [] =>
          if is_pad c3 && is_pad c4 then
            Some (string_from_int ((indexOf c1 << 18) .| (indexOf c2 << 12)))
          else if is_pad c4 then
            Some (string_from_int ((indexOf c1 << 18) .| (indexOf c2 << 12) .|
                                   (indexOf c3 << 6)))
          else
            Some (string_from_int ((indexOf c1 << 18) .| (indexOf c2 << 12) .|
                                   (indexOf c3 << 6) .| indexOf c4) +++ [])
      | _ =>
          match b64_decoder_impl chars with
          | Some rest =>
              Some (string_from_int ((indexOf c1 << 18) .| (indexOf c2 << 12) .|
                                     (indexOf c3 << 6) .| indexOf c4) +++ rest)
          | None => None
          end
      end
  | _ => None
  end.

(** The outcome of instantiating the decoder.  [InvalidEncoding] is the
    primary [b64_decode_if], whose [static_assert(isvalid, ...)] fires;
    its [decoded_string] member is the empty string.  [NoValue] is a
    [b64_decoder_impl] without a value. *)
Inductive outcome : Type :=
| Decoded (decoded_string : string)
| InvalidEncoding (decoded_string : string)
| NoValue.

Definition b64_decode_if (isvalid : bool) (chars : string) : outcome :=
  if isvalid then
    match b64_decoder_impl chars with
    | Some decoded_string => Decoded decoded_string
    | None => NoValue
    end
  else InvalidEncoding [].

Definition CTBase64Decoder (chars : string) : outcome :=
  b64_decode_if (checks.is_base64_encoding_v chars) chars.

End impl.

(** ** ct-base64.hpp *)

Module Base64.

Definition encode (s : ct.string) : ct.string := impl.CTBase64Encoder s.

Definition decode (s : ct.string) : impl.outcome := impl.CTBase64Decoder s.

End Base64.

(** ** ct-string.hpp and ct-base64.hpp: string literals and the macros *)


(** The array a string literal with the given characters denotes: the
    characters and the terminating NUL; [sizeof] is its length. *)
Definition string_literal (s : list ascii) : list ascii := s ++ [zero].

Module toolbox.

(** [apply_range<count, meta_functor, indices...>]: the primary template
    passes [count-1, indices...] on with [count-1]; the specialisation
    for [count = 0] applies the functor.  [count - 1] is only formed for
    a positive [count], so the [unsigned] never wraps. *)
Fixpoint apply_range {R : Type} (count : nat) (meta_functor : list nat -> R)
    (indices : list nat) : R :=
  match count with
  | O => meta_functor indices
  | S count_1 => apply_range count_1 meta_functor (count_1 :: indices)
  end.

(** [string_builder<lambda_str_type>::produce<indices...>::result] is
    [string<lambda_str_type{}.data[indices]...>]; [str_data] is the array
    [data] points to. *)
Definition produce (str_data : list ascii) (indices : list nat) : ct.string :=
  map (fun i => nth i str_data zero) indices.

End toolbox.

(** [CTSTRING(string_literal)]:
    [apply_range<sizeof(string_literal)-1, string_builder<...>::produce>::result].
    A literal's array holds at least the terminating NUL, so
    [sizeof - 1] does not wrap. *)
Definition CTSTRING (literal : list ascii) : ct.string :=
  toolbox.apply_range (List.length literal - 1) (toolbox.produce literal) [].





(** ** Vocabulary of the statements *)

Import ct impl impl.checks.

(** A string literal as a character pack. *)
Definition chars (s : String.string) : ct.string := list_ascii_of_string s.

(** [fits k x]: [x] is a [k]-bit unsigned value. *)
Definition fits (k x : Z) : Prop := 0 <= x < 2 ^ k.

(** The promotion of a character to [int] where [char] is signed. *)
Definition promote_signed (c : ascii) : Z :=
  if code c <? 128 then code c else code c - 256.

(** The 24-bit value the decoder packs from a group without padding. *)
Definition pack (c1 c2 c3 c4 : b64char) : Z :=
  (indexOf c1 << 18) .| (indexOf c2 << 12) .| (indexOf c3 << 6) .| indexOf c4.

(** The number of bytes missing from the last group of [n] bytes. *)
Definition zero_fill (n : nat) : nat := ((3 - n mod 3) mod 3)%nat.

(** A padding character read as the character of index 0. *)
Definition unpad (c : b64char) : b64char := if is_pad c then dict 0 else c.

(** Padding "treated as index 0 contributing no bits". *)
Definition index_or_zero (c : b64char) : Z := if is_pad c then 0 else indexOf c.

Definition alphabet_member (c : b64char) : Prop := In c dict_table.

(** Length a multiple of 4; alphabet members, then at most two trailing
    padding characters. *)
Definition well_formed (s : string) : Prop :=
  (List.length s mod 4 = 0)%nat /\
  exists body padding,
    s = body ++ padding /\ Forall alphabet_member body /\
    (padding = [] \/ padding = [pad] \/ padding = [pad; pad]).

(** The three failure conditions as the specification lists them: a
    length that is not a multiple of 4, a character before the final one
    that is neither an alphabet member nor padding, a padding character
    before the final two positions or followed by another character. *)
Definition stated_invalid (s : string) : Prop :=
  (List.length s mod 4 <> 0)%nat \/
  (exists i c, (S i < List.length s)%nat /\ nth_error s i = Some c /\
               ~ alphabet_member c /\ c <> pad) \/
  (exists i, nth_error s i = Some pad /\
             ((i + 2 < List.length s)%nat \/
              exists j c, (i < j)%nat /\ nth_error s j = Some c /\ c <> pad)).

(** The conventional Base64 alphabet. *)
Definition standard_alphabet : list b64char :=
  chars "ABCDEFGHIJKLMNOPQRSTUVWXYZabcdefghijklmnopqrstuvwxyz0123456789+/".

Definition printable (c : b64char) : bool := (32 <=? code c) && (code c <? 127).

(** ** The range conditions of the source, made explicit *)

(** [dict[i]] with the bounds of the array: there is no element at an
    index outside [0, 63]. *)
Definition dict_checked (i : Z) : option b64char :=
  if i <? 0 then None else nth_error dict_table (Z.to_nat i).

(** [CTBase64Encoder] with every table lookup checked, on the integer
    [val c] a character [c] is promoted to: [code] where [char] is
    unsigned, [promote_signed] where it is signed. *)
Fixpoint CTBase64Encoder_checked (val : ascii -> Z) (chars : string) : option string :=
  match chars with
  | c1 :: c2 :: c3 :: chars =>
      let c1 := val c1 in let c2 := val c2 in let c3 := val c3 in
      match dict_checked ((c1 .& 0xFC) >> 2),
            dict_checked (((c1 .& 0x03) << 4) .| ((c2 .& 0xF0) >> 4)),
            dict_checked (((c2 .& 0x0F) << 2) .| ((c3 .& 0xC0) >> 6)),
            dict_checked (c3 .& 0x3F),
            CTBase64Encoder_checked val chars with
      | Some d1, Some d2, Some d3, Some d4, Some rest =>
          Some ([d1; d2; d3; d4] +++ rest)
      | _, _, _, _, _ => None
      end
  | [c1; c2] =>
      let c1 := val c1 in let c2 := val c2 in
      match dict_checked ((c1 .& 0xFC) >> 2),
            dict_checked (((c1 .& 0x03) << 4) .| ((c2 .& 0xF0) >> 4)),
            dict_checked ((c2 .& 0x0F) << 2) with
      | Some d1, Some d2, Some d3 => Some [d1; d2; d3; pad]
      | _, _, _ => None
      end
  | [c1] =>
      let c1 := val c1 in
      match dict_checked ((c1 .& 0xFC) >> 2),
            dict_checked ((c1 .& 0x03) << 4) with
      | Some d1, Some d2 => Some [d1; d2; pad; pad]
      | _, _ => None
      end
  | [] => Some []
  end.

(** The expression [indexOf] converts to [index_type]. *)
Definition indexOf_unconverted (c : Z) : Z :=
  if (code "A"%char <=? c) && (c <=? code "Z"%char) then 00 + c - code "A"%char
  else if (code "a"%char <=? c) && (c <=? code "z"%char) then 26 + c - code "a"%char
  else if (code "0"%char <=? c) && (c <=? code "9"%char) then 52 + c - code "0"%char
  else if c =? code "@"%char then 62
  else if c =? code "&"%char then 63
  else 64.

(** [a << n] on [int]: defined for a non-negative [a] whose shifted
    value is below [2^31]. *)
Definition int_shl (a n : Z) : option Z :=
  if (0 <=? a) && ((a << n) <? 2 ^ 31) then Some (a << n) else None.

(** [a | b] of two [int] results. *)
Definition int_or (a b : option Z) : option Z :=
  match a, b with
  | Some a, Some b => Some (a .| b)
  | _, _ => None
  end.

(** [b64_decoder_impl] with every shift checked. *)
Fixpoint b64_decoder_impl_checked (chars : string) : option string :=
  match chars with
  | [] => Some []
  | c1 :: c2 :: c3 :: c4 :: chars =>
      match chars with
      | [] =>
          if is_pad c3 && is_pad c4 then
            option_map string_from_int
              (int_or (int_shl (indexOf c1) 18) (int_shl (indexOf c2) 12))
          else if is_pad c4 then
            option_map string_from_int
              (int_or (int_or (int_shl (indexOf c1) 18) (int_shl (indexOf c2) 12))
                      (int_shl (indexOf c3) 6))
          else
            option_map (fun s => string_from_int s +++ [])
              (int_or (int_or (int_or (int_shl (indexOf c1) 18)
                                      (int_shl (indexOf c2) 12))
                              (int_shl (indexOf c3) 6))
                      (Some (indexOf c4)))
      | _ =>
          match int_or (int_or (int_or (int_shl (indexOf c1) 18)
                                       (int_shl (indexOf c2) 12))
                               (int_shl (indexOf c3) 6))
                       (Some (indexOf c4)),
                b64_decoder_impl_checked chars with
          | Some s, Some rest => Some (string_from_int s +++ rest)
          | _, _ => None
          end
      end
  | _ => None
  end.

(** * Verification *)

(** ** Fixtures *)

Example encode_Man : Base64.encode (chars "Man") = chars "TWFu".
Proof. reflexivity. Qed.

Example encode_Ma : Base64.encode (chars "Ma") = chars "TWE=".
Proof. reflexivity. Qed.

Example encode_M : Base64.encode (chars "M") = chars "TQ==".
Proof. reflexivity. Qed.

Example encode_high_indices :
  Base64.encode [to_char 0xFB; to_char 0xFF; to_char 0xFF] = chars "@&&&".
Proof. reflexivity. Qed.

Example decode_TWFu : Base64.decode (chars "TWFu") = Decoded (chars "Man").
Proof. reflexivity. Qed.

Example decode_length_5 : Base64.decode (chars "AAAAA") = InvalidEncoding [].
Proof. reflexivity. Qed.

Example decode_standard_plus : Base64.decode (chars "AA+A") = InvalidEncoding [].
Proof. reflexivity. Qed.

(** ** Bit-level facts *)

Lemma fits_testbit k x n : fits k x -> 0 <= k <= n -> Z.testbit x n = false.
Proof.
  intros Hx Hn. apply (testbit_above (p := k)); [exact Hx | lia | lia].
Qed.

Lemma fits_land_ones k x : 0 <= k -> fits k (x .& Z.ones k).
Proof.
  intros Hk. unfold fits. rewrite Z.land_ones by assumption.
  apply Z.mod_pos_bound, Z.pow_pos_nonneg; lia.
Qed.

Lemma fits_low_bits k x : 0 <= k -> x .& Z.ones k = x -> fits k x.
Proof. intros Hk E. rewrite <- E. now apply fits_land_ones. Qed.

(** The masks of the source, as runs of ones the bitwise tactic knows. *)
Ltac masks :=
  change 0xFF with (Z.ones 8) in *; change 0x3F with (Z.ones 6) in *;
  change 0x0F with (Z.ones 4) in *; change 0x03 with (Z.ones 2) in *;
  change 0xFC with (Z.ones 6 << 2) in *; change 0xF0 with (Z.ones 4 << 4) in *;
  change 0xC0 with (Z.ones 2 << 6) in *.

(** Equality of two bit-level expressions, bit by bit. *)
Ltac bits_eq :=
  masks; prove_Zeq_bitwise;
  repeat match goal with
         | H : fits ?k ?x |- context [Z.testbit ?x ?n] =>
             rewrite (fits_testbit k x n H) by lia
         end;
  rewrite ?Bool.orb_false_r, ?Bool.orb_false_l, ?Bool.andb_true_r;
  try reflexivity; try (f_equal; lia); try btauto.

Ltac fits6 := apply fits_low_bits; [lia | bits_eq].

(** What the encoder computes from one group of input bytes. *)
Section EncoderGroup.
Variables b0 b1 b2 : Z.
Hypothesis H0 : fits 8 b0.
Hypothesis H1 : fits 8 b1.
Hypothesis H2 : fits 8 b2.

Lemma index1_fits : fits 6 ((b0 .& 0xFC) >> 2).
Proof. fits6. Qed.

Lemma index2_fits : fits 6 (((b0 .& 0x03) << 4) .| ((b1 .& 0xF0) >> 4)).
Proof. fits6. Qed.

Lemma index3_fits : fits 6 (((b1 .& 0x0F) << 2) .| ((b2 .& 0xC0) >> 6)).
Proof. fits6. Qed.

Lemma index4_fits : fits 6 (b2 .& 0x3F).
Proof. fits6. Qed.

Lemma index2_final_fits : fits 6 ((b0 .& 0x03) << 4).
Proof. fits6. Qed.

Lemma index3_final_fits : fits 6 ((b1 .& 0x0F) << 2).
Proof. fits6. Qed.

(** The masks before the right shifts are redundant on 8-bit values. *)
Lemma mask_FC_shift : (b0 .& 0xFC) >> 2 = b0 >> 2.
Proof. bits_eq. Qed.

Lemma mask_F0_shift : (b1 .& 0xF0) >> 4 = b1 >> 4.
Proof. bits_eq. Qed.

Lemma mask_C0_shift : (b2 .& 0xC0) >> 6 = b2 >> 6.
Proof. bits_eq. Qed.

(** Packing the four indices of a full group and cutting the 24-bit
    value into bytes gives the group back. *)
Lemma unpack_full :
  let v := (((b0 .& 0xFC) >> 2) << 18) .|
           ((((b0 .& 0x03) << 4) .| ((b1 .& 0xF0) >> 4)) << 12) .|
           ((((b1 .& 0x0F) << 2) .| ((b2 .& 0xC0) >> 6)) << 6) .|
           (b2 .& 0x3F) in
  (v >> 16) .& 0xFF = b0 /\ (v >> 8) .& 0xFF = b1 /\ v .& 0xFF = b2.
Proof. intros v; subst v; repeat split; bits_eq. Qed.

Lemma unpack_two :
  let v := (((b0 .& 0xFC) >> 2) << 18) .|
           ((((b0 .& 0x03) << 4) .| ((b1 .& 0xF0) >> 4)) << 12) .|
           (((b1 .& 0x0F) << 2) << 6) in
  (v >> 16) .& 0xFF = b0 /\ (v >> 8) .& 0xFF = b1 /\ v .& 0xFF = 0.
Proof. intros v; subst v; repeat split; bits_eq. Qed.

Lemma unpack_one :
  let v := (((b0 .& 0xFC) >> 2) << 18) .| (((b0 .& 0x03) << 4) << 12) in
  (v >> 16) .& 0xFF = b0 /\ (v >> 8) .& 0xFF = 0 /\ v .& 0xFF = 0.
Proof. intros v; subst v; repeat split; bits_eq. Qed.
End EncoderGroup.

(** What the decoder computes from the four indices of one group. *)
Section DecoderGroup.
Variables i1 i2 i3 i4 : Z.
Hypothesis H1 : fits 6 i1.
Hypothesis H2 : fits 6 i2.
Hypothesis H3 : fits 6 i3.
Hypothesis H4 : fits 6 i4.

Lemma repack_full :
  let v := (i1 << 18) .| (i2 << 12) .| (i3 << 6) .| i4 in
  let c1 := (v >> 16) .& 0xFF in
  let c2 := (v >> 8) .& 0xFF in
  let c3 := v .& 0xFF in
  (c1 .& 0xFC) >> 2 = i1 /\
  ((c1 .& 0x03) << 4) .| ((c2 .& 0xF0) >> 4) = i2 /\
  ((c2 .& 0x0F) << 2) .| ((c3 .& 0xC0) >> 6) = i3 /\
  c3 .& 0x3F = i4.
Proof. intros v c1 c2 c3; subst c1 c2 c3 v; repeat split; bits_eq. Qed.

Lemma repack_pad1 :
  let v := (i1 << 18) .| (i2 << 12) .| (i3 << 6) in
  let c1 := (v >> 16) .& 0xFF in
  let c2 := (v >> 8) .& 0xFF in
  let c3 := v .& 0xFF in
  (c1 .& 0xFC) >> 2 = i1 /\
  ((c1 .& 0x03) << 4) .| ((c2 .& 0xF0) >> 4) = i2 /\
  ((c2 .& 0x0F) << 2) .| ((c3 .& 0xC0) >> 6) = i3 /\
  c3 .& 0x3F = 0 /\
  c3 = (i3 .& 0x03) << 6.
Proof. intros v c1 c2 c3; subst c1 c2 c3 v; repeat split; bits_eq. Qed.

Lemma repack_pad2 :
  let v := (i1 << 18) .| (i2 << 12) in
  let c1 := (v >> 16) .& 0xFF in
  let c2 := (v >> 8) .& 0xFF in
  let c3 := v .& 0xFF in
  (c1 .& 0xFC) >> 2 = i1 /\
  ((c1 .& 0x03) << 4) .| ((c2 .& 0xF0) >> 4) = i2 /\
  ((c2 .& 0x0F) << 2) .| ((c3 .& 0xC0) >> 6) = 0 /\
  c3 .& 0x3F = 0 /\
  c2 = (i2 .& 0x0F) << 4 /\
  c3 = 0.
Proof. intros v c1 c2 c3; subst c1 c2 c3 v; repeat split; bits_eq. Qed.
End DecoderGroup.

(** ** Characters and the alphabet *)

Ltac each_char c := destruct c as [[] [] [] [] [] [] [] []].

Lemma code_fits c : fits 8 (code c).
Proof.
  unfold fits, code. pose proof (N_ascii_bounded c). change (2 ^ 8) with 256. lia.
Qed.

Lemma to_char_code c : to_char (code c) = c.
Proof.
  unfold to_char. rewrite Z.mod_small by apply code_fits.
  unfold code. rewrite N2Z.id. apply ascii_N_embedding.
Qed.

Lemma code_to_char z : fits 8 z -> code (to_char z) = z.
Proof.
  intros Hz. unfold code, to_char. rewrite Z.mod_small by exact Hz.
  unfold fits in Hz. change (2 ^ 8) with 256 in Hz.
  rewrite N_ascii_embedding by lia. lia.
Qed.

Lemma code_byte z : code (to_char (z .& 0xFF)) = z .& 0xFF.
Proof. apply code_to_char. change 0xFF with (Z.ones 8). apply fits_land_ones. lia. Qed.

Lemma is_pad_eq c : is_pad c = true <-> c = pad.
Proof. apply Ascii.eqb_eq. Qed.

Lemma indexOf_range c : 0 <= indexOf c <= 64.
Proof. each_char c; vm_compute; split; discriminate. Qed.

Lemma dict_indexOf c : (indexOf c <? 64) = true -> dict (indexOf c) = c.
Proof. each_char c; vm_compute; solve [reflexivity | discriminate]. Qed.

Lemma indexOf_dict_nat n : (n < 64)%nat -> indexOf (dict (Z.of_nat n)) = Z.of_nat n.
Proof.
  intros Hn. do 64 (destruct n as [|n]; [reflexivity|]). lia.
Qed.

Lemma indexOf_dict_fits i : fits 6 i -> indexOf (dict i) = i.
Proof.
  intros [Hl Hu]. change (2 ^ 6) with 64 in Hu.
  rewrite <- (Z2Nat.id i) by assumption. apply indexOf_dict_nat. lia.
Qed.

Lemma indexOf_fits c : (indexOf c <? 64) = true -> fits 6 (indexOf c).
Proof.
  intros H. apply Z.ltb_lt in H. pose proof (indexOf_range c).
  unfold fits. change (2 ^ 6) with 64. lia.
Qed.

Lemma dict_in_table i : fits 6 i -> In (dict i) dict_table.
Proof.
  intros [Hl Hu]. change (2 ^ 6) with 64 in Hu.
  apply nth_In. change (List.length dict_table) with 64%nat. lia.
Qed.

Lemma member_iff_index c : In c dict_table <-> (indexOf c <? 64) = true.
Proof.
  split.
  - intros H. unfold dict_table in H. simpl In in H.
    repeat (destruct H as [<- | H]; [reflexivity|]). destruct H.
  - intros H. rewrite <- (dict_indexOf c H). apply dict_in_table, indexOf_fits, H.
Qed.

Lemma indexOf_pad : indexOf pad = 64.
Proof. reflexivity. Qed.

Lemma member_not_pad c : (indexOf c <? 64) = true -> is_pad c = false.
Proof.
  intros H. destruct (is_pad c) eqn:E; [|reflexivity].
  apply is_pad_eq in E. subst c. discriminate H.
Qed.

Lemma dict_not_pad i : fits 6 i -> is_pad (dict i) = false.
Proof.
  intros Hi. apply member_not_pad. rewrite indexOf_dict_fits by assumption.
  apply Z.ltb_lt, Hi.
Qed.

(** The signedness of [char] is irrelevant to the codec: the promoted
    value of a signed character and its 8-bit pattern agree under any
    mask below 256, and they have the same index. *)
Lemma mask_signed c m : fits 8 m -> promote_signed c .& m = code c .& m.
Proof.
  intros Hm. unfold promote_signed. destruct (code c <? 128); [reflexivity|].
  assert (Em : Z.ones 8 .& m = m).
  { rewrite Z.land_comm, Z.land_ones by lia. apply Z.mod_small, Hm. }
  rewrite <- Em, !Z.land_assoc. f_equal.
  rewrite !Z.land_ones by lia.
  replace (code c - 256) with (code c + (-1) * 2 ^ 8) by (change (2 ^ 8) with 256; lia).
  apply Z.mod_add. discriminate.
Qed.

Lemma indexOf_value_negative v : -256 <= v < 0 -> indexOf_value v = 64.
Proof.
  intros Hv. unfold indexOf_value.
  replace (code "A"%char <=? v) with false by (symmetry; apply Z.leb_gt; cbn; lia).
  replace (code "a"%char <=? v) with false by (symmetry; apply Z.leb_gt; cbn; lia).
  replace (code "0"%char <=? v) with false by (symmetry; apply Z.leb_gt; cbn; lia).
  replace (v =? code "@"%char) with false by (symmetry; apply Z.eqb_neq; cbn; lia).
  replace (v =? code "&"%char) with false by (symmetry; apply Z.eqb_neq; cbn; lia).
  reflexivity.
Qed.

Lemma high_char_no_index c : 128 <= code c -> indexOf c = 64.
Proof. each_char c; vm_compute; intros H; solve [reflexivity | now elim H]. Qed.

Lemma indexOf_signed c : indexOf_value (promote_signed c) = indexOf c.
Proof.
  unfold promote_signed. destruct (code c <? 128) eqn:E; [reflexivity|].
  apply Z.ltb_ge in E. rewrite (high_char_no_index c E).
  apply indexOf_value_negative. pose proof (code_fits c) as [_ Hu].
  change (2 ^ 8) with 256 in Hu. lia.
Qed.

(** ** Induction by groups *)

Section GroupInduction.
Context {A : Type} (P : list A -> Prop).

Lemma groups3_ind :
  P [] -> (forall a, P [a]) -> (forall a b, P [a; b]) ->
  (forall a b c l, P l -> P (a :: b :: c :: l)) ->
  forall l, P l.
Proof.
  intros P0 P1 P2 P3 l.
  enough (H : P l /\ (forall a, P (a :: l)) /\ (forall a b, P (a :: b :: l)))
    by apply H.
  induction l as [|x l (Hl & Hl1 & Hl2)]; repeat split; auto.
Qed.

Lemma groups4_ind :
  P [] -> (forall a, P [a]) -> (forall a b, P [a; b]) ->
  (forall a b c, P [a; b; c]) ->
  (forall a b c d l, P l -> P (a :: b :: c :: d :: l)) ->
  forall l, P l.
Proof.
  intros P0 P1 P2 P3 P4 l.
  enough (H : P l /\ (forall a, P (a :: l)) /\ (forall a b, P (a :: b :: l))
              /\ (forall a b c, P (a :: b :: c :: l))) by apply H.
  induction l as [|x l (Hl & Hl1 & Hl2 & Hl3)]; repeat split; auto.
Qed.
End GroupInduction.

(** ** The validity check, group by group *)

Lemma valid_length_plus4 n :
  is_base64_valid_length_v (4 + n) = is_base64_valid_length_v n.
Proof.
  unfold is_base64_valid_length_v. rewrite Nat2Z.inj_add.
  change (Z.of_nat 4) with (1 * 4). rewrite Z.add_comm, Z.mod_add by discriminate.
  reflexivity.
Qed.

Lemma valid_length_iff n :
  is_base64_valid_length_v n = true <-> (n mod 4 = 0)%nat.
Proof.
  unfold is_base64_valid_length_v. rewrite Z.eqb_eq.
  change 4 with (Z.of_nat 4). rewrite <- Nat2Z.inj_mod. lia.
Qed.

Lemma encoding_short_1 a : is_base64_encoding_v [a] = false.
Proof. reflexivity. Qed.

Lemma encoding_short_2 a b : is_base64_encoding_v [a; b] = false.
Proof. reflexivity. Qed.

Lemma encoding_short_3 a b c : is_base64_encoding_v [a; b; c] = false.
Proof. reflexivity. Qed.

Lemma encoding_final_group c1 c2 c3 c4 :
  is_base64_encoding_v [c1; c2; c3; c4] =
  (indexOf c1 <? 64) && (indexOf c2 <? 64) &&
  ((is_pad c3 && is_pad c4) ||
   ((indexOf c3 <? 64) && (is_pad c4 || (indexOf c4 <? 64)))).
Proof.
  unfold is_base64_encoding_v.
  change (is_base64_valid_length_v (List.length [c1; c2; c3; c4])) with true.
  cbn [andb is_base64_chars_v].
  destruct (indexOf c1 <? 64), (indexOf c2 <? 64), (indexOf c3 <? 64),
    (indexOf c4 <? 64), (is_pad c3), (is_pad c4); reflexivity.
Qed.

Lemma encoding_inner_group c1 c2 c3 c4 r rest :
  is_base64_encoding_v (c1 :: c2 :: c3 :: c4 :: r :: rest) =
  (indexOf c1 <? 64) && (indexOf c2 <? 64) && (indexOf c3 <? 64) &&
  (indexOf c4 <? 64) && is_base64_encoding_v (r :: rest).
Proof.
  unfold is_base64_encoding_v.
  change (List.length (c1 :: c2 :: c3 :: c4 :: r :: rest))
    with (4 + List.length (r :: rest))%nat.
  rewrite valid_length_plus4.
  destruct rest as [|r2 [|r3 rest]].
  - change (is_base64_valid_length_v (List.length [r])) with false.
    rewrite !andb_false_r. reflexivity.
  - change (is_base64_valid_length_v (List.length [r; r2])) with false.
    rewrite !andb_false_r. reflexivity.
  - cbn [is_base64_chars_v].
    destruct (is_base64_valid_length_v _), (indexOf c1 <? 64), (indexOf c2 <? 64),
      (indexOf c3 <? 64), (indexOf c4 <? 64); reflexivity.
Qed.

(** A group of four alphabet members does not change validity. *)
Lemma encoding_member_group c1 c2 c3 c4 rest :
  (indexOf c1 <? 64) = true -> (indexOf c2 <? 64) = true ->
  (indexOf c3 <? 64) = true -> (indexOf c4 <? 64) = true ->
  is_base64_encoding_v (c1 :: c2 :: c3 :: c4 :: rest) = is_base64_encoding_v rest.
Proof.
  intros M1 M2 M3 M4. destruct rest as [|r rest].
  - rewrite encoding_final_group, M1, M2, M3, M4.
    destruct (is_pad c3), (is_pad c4); reflexivity.
  - rewrite encoding_inner_group, M1, M2, M3, M4. reflexivity.
Qed.

(** ** The decoder, group by group *)

Lemma length_group4 {A} (a b c d : A) l :
  List.length (a :: b :: c :: d :: l) = (List.length l + 1 * 4)%nat.
Proof. cbn [List.length]. lia. Qed.

Lemma decoder_group c1 c2 c3 c4 rest :
  rest <> [] \/ is_pad c4 = false ->
  b64_decoder_impl (c1 :: c2 :: c3 :: c4 :: rest) =
  option_map (fun r => string_from_int (pack c1 c2 c3 c4) ++ r) (b64_decoder_impl rest).
Proof.
  intros H. destruct rest as [|r rest].
  - destruct H as [H | H]; [now elim H|].
    cbn [b64_decoder_impl]. rewrite H, andb_false_r. reflexivity.
  - cbn [b64_decoder_impl]. destruct (b64_decoder_impl (r :: rest)); reflexivity.
Qed.

Lemma decoder_total s :
  (List.length s mod 4 = 0)%nat ->
  exists out, b64_decoder_impl s = Some out /\
              List.length out = (3 * (List.length s / 4))%nat.
Proof.
  induction s as [| a | a b | a b c | c1 c2 c3 c4 rest IH] using groups4_ind;
    intros Hlen; try discriminate Hlen.
  - exists []. split; reflexivity.
  - rewrite length_group4 in *.
    rewrite Nat.Div0.mod_add in Hlen. rewrite Nat.div_add by discriminate.
    destruct (IH Hlen) as (out & Hout & Hl).
    destruct rest as [|r rest].
    + cbn [b64_decoder_impl].
      destruct (is_pad c3 && is_pad c4); [|destruct (is_pad c4)];
        eexists; split; reflexivity.
    + rewrite decoder_group by (left; discriminate). rewrite Hout.
      eexists; split; [reflexivity|].
      cbn [string_from_int List.length app] in Hl |- *. lia.
Qed.

Lemma decoder_prefix body :
  (List.length body mod 4 = 0)%nat ->
  exists out, List.length out = (3 * (List.length body / 4))%nat /\
    forall g, g <> [] ->
      b64_decoder_impl (body ++ g) = option_map (fun r => out ++ r) (b64_decoder_impl g).
Proof.
  induction body as [| a | a b | a b c | c1 c2 c3 c4 rest IH] using groups4_ind;
    intros Hlen; try discriminate Hlen.
  - exists []. split; [reflexivity|]. intros g _. cbn [app].
    destruct (b64_decoder_impl g); reflexivity.
  - rewrite length_group4 in *.
    rewrite Nat.Div0.mod_add in Hlen. rewrite Nat.div_add by discriminate.
    destruct (IH Hlen) as (out & Hl & Hout).
    exists (string_from_int (pack c1 c2 c3 c4) ++ out). split.
    + cbn [string_from_int List.length app]. lia.
    + intros g Hg. cbn [app].
      rewrite decoder_group by (left; destruct rest; [assumption | discriminate]).
      rewrite (Hout g Hg). destruct (b64_decoder_impl g); cbn [option_map];
        [rewrite app_assoc|]; reflexivity.
Qed.

(** ** The encoder's output *)

Create HintDb b64 discriminated.
#[local] Hint Resolve code_fits index1_fits index2_fits index3_fits index4_fits
  index2_final_fits index3_final_fits : b64.

Lemma dict_member i : fits 6 i -> (indexOf (dict i) <? 64) = true.
Proof.
  intros Hi. rewrite indexOf_dict_fits by assumption. apply Z.ltb_lt, Hi.
Qed.

Lemma is_pad_pad : is_pad pad = true.
Proof. reflexivity. Qed.

Lemma encode_valid b : is_base64_encoding_v (CTBase64Encoder b) = true.
Proof.
  induction b as [| a | a b | a b c l IH] using groups3_ind.
  - reflexivity.
  - cbn [CTBase64Encoder]. rewrite encoding_final_group.
    rewrite !dict_member by auto with b64. reflexivity.
  - cbn [CTBase64Encoder]. rewrite encoding_final_group.
    rewrite !dict_member by auto with b64. rewrite is_pad_pad.
    destruct (is_pad _); reflexivity.
  - cbn [CTBase64Encoder concat app].
    rewrite encoding_member_group by (apply dict_member; auto with b64).
    exact IH.
Qed.

Lemma encode_length b :
  List.length (CTBase64Encoder b) = (4 * ((List.length b + 2) / 3))%nat.
Proof.
  induction b as [| a | a b | a b c l IH] using groups3_ind; try reflexivity.
  cbn [CTBase64Encoder concat app List.length]. rewrite IH.
  replace (S (S (S (List.length l))) + 2)%nat with (List.length l + 2 + 1 * 3)%nat by lia.
  rewrite Nat.div_add by discriminate. lia.
Qed.

Lemma zero_fill_group n : zero_fill (3 + n) = zero_fill n.
Proof.
  unfold zero_fill. replace (3 + n)%nat with (n + 1 * 3)%nat by lia.
  rewrite Nat.Div0.mod_add. reflexivity.
Qed.

Lemma decoder_encode b :
  b64_decoder_impl (CTBase64Encoder b) =
  Some (b ++ repeat zero (zero_fill (List.length b))).
Proof.
  induction b as [| a | a b | a b c l IH] using groups3_ind.
  - reflexivity.
  - cbn [CTBase64Encoder b64_decoder_impl]. rewrite is_pad_pad. cbn [andb].
    rewrite !indexOf_dict_fits by auto with b64.
    destruct (unpack_one (code a) (code_fits a)) as (E0 & E1 & E2).
    unfold string_from_int. rewrite E0, E1, E2, to_char_code. reflexivity.
  - cbn [CTBase64Encoder b64_decoder_impl].
    rewrite is_pad_pad, dict_not_pad by auto with b64. cbn [andb].
    rewrite !indexOf_dict_fits by auto with b64.
    destruct (unpack_two (code a) (code b) (code_fits a) (code_fits b))
      as (E0 & E1 & E2).
    unfold string_from_int. rewrite E0, E1, E2, !to_char_code. reflexivity.
  - cbn [CTBase64Encoder concat app].
    rewrite decoder_group by (right; apply dict_not_pad; auto with b64).
    rewrite IH. cbn [option_map]. unfold pack.
    rewrite !indexOf_dict_fits by auto with b64.
    destruct (unpack_full (code a) (code b) (code c)
                (code_fits a) (code_fits b) (code_fits c)) as (E0 & E1 & E2).
    unfold string_from_int. rewrite E0, E1, E2, !to_char_code.
    change (List.length (a :: b :: c :: l)) with (3 + List.length l)%nat.
    rewrite zero_fill_group. reflexivity.
Qed.

(** ** Decoding, then encoding again *)

Lemma unpad_member c : (indexOf c <? 64) = true -> unpad c = c.
Proof. intros H. unfold unpad. now rewrite member_not_pad. Qed.

Lemma unpad_pad c : is_pad c = true -> unpad c = dict 0.
Proof. intros H. unfold unpad. now rewrite H. Qed.

Lemma encode_bytes_of v rest :
  CTBase64Encoder (string_from_int v ++ rest) =
  (let c1 := (v >> 16) .& 0xFF in
   let c2 := (v >> 8) .& 0xFF in
   let c3 := v .& 0xFF in
   [ dict ((c1 .& 0xFC) >> 2);
     dict (((c1 .& 0x03) << 4) .| ((c2 .& 0xF0) >> 4));
     dict (((c2 .& 0x0F) << 2) .| ((c3 .& 0xC0) >> 6));
     dict (c3 .& 0x3F) ]) ++ CTBase64Encoder rest.
Proof.
  unfold string_from_int. cbn [app CTBase64Encoder concat].
  rewrite !code_byte. reflexivity.
Qed.

Lemma reencode s :
  is_base64_encoding_v s = true ->
  exists out, b64_decoder_impl s = Some out /\ CTBase64Encoder out = map unpad s.
Proof.
  induction s as [| a | a b | a b c | c1 c2 c3 c4 rest IH] using groups4_ind;
    intros V; try discriminate V.
  - exists []. split; reflexivity.
  - destruct rest as [|r rest].
    + rewrite encoding_final_group in V.
      apply andb_prop in V. destruct V as (V12 & V34).
      apply andb_prop in V12. destruct V12 as (M1 & M2).
      pose proof (indexOf_fits _ M1) as F1. pose proof (indexOf_fits _ M2) as F2.
      cbn [b64_decoder_impl map].
      rewrite (unpad_member c1 M1), (unpad_member c2 M2).
      destruct (is_pad c3 && is_pad c4) eqn:P34.
      * apply andb_prop in P34. destruct P34 as (P3 & P4).
        eexists; split; [reflexivity|].
        rewrite <- (app_nil_r (string_from_int _)), encode_bytes_of.
        destruct (repack_pad2 _ _ F1 F2) as (E1 & E2 & E3 & E4 & _).
        cbv zeta. rewrite E1, E2, E3, E4, (unpad_pad c3 P3), (unpad_pad c4 P4).
        rewrite (dict_indexOf c1 M1), (dict_indexOf c2 M2). reflexivity.
      * cbn [orb] in V34.
        apply andb_prop in V34. destruct V34 as (M3 & V4).
        pose proof (indexOf_fits _ M3) as F3.
        rewrite (unpad_member c3 M3).
        destruct (is_pad c4) eqn:P4.
        -- eexists; split; [reflexivity|].
           rewrite <- (app_nil_r (string_from_int _)), encode_bytes_of.
           destruct (repack_pad1 _ _ _ F1 F2 F3) as (E1 & E2 & E3 & E4 & _).
           cbv zeta. rewrite E1, E2, E3, E4, (unpad_pad c4 P4).
           rewrite (dict_indexOf c1 M1), (dict_indexOf c2 M2), (dict_indexOf c3 M3).
           reflexivity.
        -- cbn [orb] in V4. pose proof (indexOf_fits _ V4) as F4.
           rewrite (unpad_member c4 V4).
           eexists; split; [reflexivity|].
           unfold concat. rewrite encode_bytes_of.
           destruct (repack_full _ _ _ _ F1 F2 F3 F4) as (E1 & E2 & E3 & E4).
           cbv zeta. rewrite E1, E2, E3, E4.
           rewrite (dict_indexOf c1 M1), (dict_indexOf c2 M2), (dict_indexOf c3 M3),
             (dict_indexOf c4 V4).
           reflexivity.
    + rewrite encoding_inner_group in V.
      apply andb_prop in V. destruct V as (V & Vrest).
      apply andb_prop in V. destruct V as (V & M4).
      apply andb_prop in V. destruct V as (V & M3).
      apply andb_prop in V. destruct V as (M1 & M2).
      destruct (IH Vrest) as (out & Hout & Henc).
      rewrite decoder_group by (left; discriminate). rewrite Hout.
      eexists; split; [reflexivity|].
      rewrite encode_bytes_of. unfold pack.
      destruct (repack_full _ _ _ _ (indexOf_fits _ M1) (indexOf_fits _ M2)
                  (indexOf_fits _ M3) (indexOf_fits _ M4)) as (E1 & E2 & E3 & E4).
      cbv zeta. rewrite E1, E2, E3, E4, Henc.
      rewrite (dict_indexOf c1 M1), (dict_indexOf c2 M2), (dict_indexOf c3 M3),
        (dict_indexOf c4 M4).
      cbn [map app]. rewrite (unpad_member c1 M1), (unpad_member c2 M2),
        (unpad_member c3 M3), (unpad_member c4 M4).
      reflexivity.
Qed.

(** ** Validity in the words of the specification *)

Lemma chars_sound s :
  is_base64_chars_v s = true ->
  exists body padding,
    s = body ++ padding /\ Forall alphabet_member body /\
    (padding = [] \/ padding = [pad] \/ padding = [pad; pad]).
Proof.
  induction s as [|h tail IH]; intros V.
  - exists [], []. auto.
  - assert (Step : (indexOf h <? 64) = true -> is_base64_chars_v tail = true ->
                   exists body padding,
                     h :: tail = body ++ padding /\ Forall alphabet_member body /\
                     (padding = [] \/ padding = [pad] \/ padding = [pad; pad])).
    { intros M V'. destruct (IH V') as (body & padding & E & F & O).
      exists (h :: body), padding. repeat split; [now rewrite E | | exact O].
      constructor; [now apply member_iff_index | exact F]. }
    assert (Last : forall padding, (indexOf h <? 64) = true -> tail = padding ->
                   padding = [] \/ padding = [pad] \/ padding = [pad; pad] ->
                   exists body padding,
                     h :: tail = body ++ padding /\ Forall alphabet_member body /\
                     (padding = [] \/ padding = [pad] \/ padding = [pad; pad])).
    { intros padding M -> O. exists [h], padding. repeat split; [| exact O].
      constructor; [now apply member_iff_index | constructor]. }
    cbn [is_base64_chars_v] in V. clear IH.
    destruct tail as [|p1 [|p2 [|p3 t]]].
    + apply andb_prop in V. destruct V as (M & _). apply (Last []); auto.
    + destruct (is_pad p1) eqn:P1.
      * apply is_pad_eq in P1. subst p1. apply (Last [pad]); auto.
      * apply andb_prop in V. destruct V as (M & V'). now apply Step.
    + destruct (is_pad p1 && is_pad p2) eqn:P12.
      * apply andb_prop in P12. destruct P12 as (P1 & P2).
        apply is_pad_eq in P1, P2. subst p1 p2. apply (Last [pad; pad]); auto.
      * apply andb_prop in V. destruct V as (M & V'). now apply Step.
    + apply andb_prop in V. destruct V as (M & V'). now apply Step.
Qed.

Lemma chars_complete body padding :
  Forall alphabet_member body ->
  padding = [] \/ padding = [pad] \/ padding = [pad; pad] ->
  (body = [] -> padding = []) ->
  is_base64_chars_v (body ++ padding) = true.
Proof.
  induction body as [|h body IH]; intros F O N.
  - rewrite (N eq_refl). reflexivity.
  - inversion F as [|? ? Mh F']; subst. apply member_iff_index in Mh.
    destruct body as [|h' body].
    + destruct O as [-> | [-> | ->]]; cbn [app is_base64_chars_v];
        rewrite Mh; reflexivity.
    + assert (V' : is_base64_chars_v ((h' :: body) ++ padding) = true)
        by (apply IH; [exact F' | exact O | discriminate]).
      assert (P' : is_pad h' = false).
      { inversion F' as [|? ? Mh' _]; subst.
        now apply member_not_pad, member_iff_index. }
      cbn [app] in V' |- *. cbn [is_base64_chars_v].
      destruct (body ++ padding) as [|x [|y l]]; rewrite ?P', Mh; cbn [andb];
        exact V'.
Qed.

Lemma encoding_iff_well_formed s :
  is_base64_encoding_v s = true <-> well_formed s.
Proof.
  unfold is_base64_encoding_v, well_formed. rewrite andb_true_iff, valid_length_iff.
  split; intros (L & H); (split; [exact L|]).
  - now apply chars_sound.
  - destruct H as (body & padding & -> & F & O). apply chars_complete; auto.
    intros ->. destruct O as [-> | [-> | ->]]; [reflexivity | discriminate L ..].
Qed.

Lemma decode_valid s out :
  is_base64_encoding_v s = true -> b64_decoder_impl s = Some out ->
  Base64.decode s = Decoded out.
Proof.
  intros V D. unfold Base64.decode, CTBase64Decoder, b64_decode_if.
  now rewrite V, D.
Qed.

Lemma decode_invalid s :
  is_base64_encoding_v s = false -> Base64.decode s = InvalidEncoding [].
Proof.
  intros V. unfold Base64.decode, CTBase64Decoder, b64_decode_if. now rewrite V.
Qed.

Lemma decode_has_value s : Base64.decode s <> NoValue.
Proof.
  destruct (is_base64_encoding_v s) eqn:V.
  - unfold is_base64_encoding_v in V. apply andb_prop in V. destruct V as (L & C).
    apply valid_length_iff in L. destruct (decoder_total s L) as (out & D & _).
    unfold Base64.decode, CTBase64Decoder, b64_decode_if, is_base64_encoding_v.
    apply valid_length_iff in L. rewrite L, C, D. discriminate.
  - rewrite (decode_invalid s V). discriminate.
Qed.

Lemma decode_succeeds s :
  is_base64_encoding_v s = true ->
  exists out, Base64.decode s = Decoded out /\
              List.length out = (3 * (List.length s / 4))%nat.
Proof.
  intros V. pose proof V as V0. unfold is_base64_encoding_v in V0.
  apply andb_prop in V0. destruct V0 as (L & _). apply valid_length_iff in L.
  destruct (decoder_total s L) as (out & D & Hl).
  exists out. split; [now apply decode_valid | exact Hl].
Qed.

(** ** The properties of the specification *)

(** *** Alphabet *)

Lemma dict_table_NoDup : NoDup dict_table.
Proof.
  apply (NoDup_nth dict_table zero). intros i j Hi Hj E.
  change (List.length dict_table) with 64%nat in Hi, Hj.
  apply Nat2Z.inj.
  rewrite <- (indexOf_dict_nat i Hi), <- (indexOf_dict_nat j Hj).
  unfold dict. rewrite !Nat2Z.id. now rewrite E.
Qed.

(** C6: the alphabet is a table of 64 distinct printable characters,
    the standard Base64 alphabet in positions 0 to 61, then ['@'] at index
    62 and ['&'] at index 63 where the standard has ['+'] and ['/'];
    the padding character is ['=']. *)
Theorem alphabet_table :
  List.length dict_table = 64%nat /\
  NoDup dict_table /\
  forallb printable dict_table = true /\
  firstn 62 dict_table = firstn 62 standard_alphabet /\
  skipn 62 dict_table = chars "@&" /\
  skipn 62 standard_alphabet = chars "+/" /\
  dict 62 = "@"%char /\ dict 63 = "&"%char /\
  pad = "="%char.
Proof.
  repeat split; try reflexivity. exact dict_table_NoDup.
Qed.

(** C10: [indexOf] is a left inverse of the table on indices 0 to 63, so
    the 64 entries are distinct, and it is 64 at every character outside
    the alphabet, the padding character included. *)
Theorem indexOf_left_inverse :
  (forall i, 0 <= i <= 63 -> indexOf (dict i) = i) /\
  NoDup dict_table /\
  (forall c, ~ In c dict_table -> indexOf c = 64) /\
  ~ In pad dict_table /\ indexOf pad = 64.
Proof.
  split; [|split; [|split; [|split]]].
  - intros i Hi. apply indexOf_dict_fits. unfold fits. change (2 ^ 6) with 64. lia.
  - exact dict_table_NoDup.
  - intros c Hc. pose proof (indexOf_range c) as R.
    destruct (indexOf c <? 64) eqn:E.
    + elim Hc. now apply member_iff_index.
    + apply Z.ltb_ge in E. lia.
  - intros H. apply member_iff_index in H. discriminate H.
  - reflexivity.
Qed.

Lemma indexOf_left_inverse_witness :
  indexOf (dict 62) = 62 /\ indexOf "+"%char = 64.
Proof.
  split.
  - apply (proj1 indexOf_left_inverse). lia.
  - apply (proj1 (proj2 (proj2 indexOf_left_inverse))).
    intros H. apply member_iff_index in H. discriminate H.
Defined.

(** *** Encoder *)

(** C5: the encoder consumes its input three bytes at a time; a full
    group gives the four characters at indices [b0>>2],
    [((b0&0x03)<<4)|(b1>>4)], [((b1&0x0F)<<2)|(b2>>6)] and [b2&0x3F]; a
    final group of two bytes gives three characters and one padding
    character, a final group of one byte two characters and two padding
    characters, and none of the index characters is the padding
    character. *)
Theorem encode_groups :
  (forall c0 c1 c2 rest,
      let b0 := code c0 in let b1 := code c1 in let b2 := code c2 in
      Base64.encode (c0 :: c1 :: c2 :: rest) =
      [ dict (b0 >> 2); dict (((b0 .& 0x03) << 4) .| (b1 >> 4));
        dict (((b1 .& 0x0F) << 2) .| (b2 >> 6)); dict (b2 .& 0x3F) ]
      ++ Base64.encode rest) /\
  (forall c0 c1,
      let b0 := code c0 in let b1 := code c1 in
      Base64.encode [c0; c1] =
      [ dict (b0 >> 2); dict (((b0 .& 0x03) << 4) .| (b1 >> 4));
        dict ((b1 .& 0x0F) << 2); pad ] /\
      count_occ ascii_dec (Base64.encode [c0; c1]) pad = 1%nat) /\
  (forall c0,
      let b0 := code c0 in
      Base64.encode [c0] = [ dict (b0 >> 2); dict ((b0 .& 0x03) << 4); pad; pad ] /\
      count_occ ascii_dec (Base64.encode [c0]) pad = 2%nat).
Proof.
  assert (NP : forall i l, fits 6 i ->
                 count_occ ascii_dec (dict i :: l) pad = count_occ ascii_dec l pad).
  { intros i l Hi. apply count_occ_cons_neq. intros E.
    pose proof (dict_not_pad i Hi) as P. rewrite E in P. discriminate P. }
  split; [|split].
  - intros c0 c1 c2 rest b0 b1 b2. subst b0 b1 b2.
    unfold Base64.encode. cbn [CTBase64Encoder concat].
    rewrite (mask_FC_shift _ (code_fits c0)), (mask_F0_shift _ (code_fits c1)),
      (mask_C0_shift _ (code_fits c2)).
    reflexivity.
  - intros c0 c1 b0 b1. subst b0 b1. unfold Base64.encode. cbn [CTBase64Encoder].
    split.
    + rewrite (mask_FC_shift _ (code_fits c0)), (mask_F0_shift _ (code_fits c1)).
      reflexivity.
    + rewrite !NP by auto with b64. reflexivity.
  - intros c0 b0. subst b0. unfold Base64.encode. cbn [CTBase64Encoder].
    split.
    + rewrite (mask_FC_shift _ (code_fits c0)). reflexivity.
    + rewrite !NP by auto with b64. reflexivity.
Qed.

(** C9: the encoding of [n] bytes has [4 * ceil (n / 3)] characters and
    passes the decoder's validity check: its length is a multiple of 4
    and it is a run of alphabet members followed by at most two padding
    characters. *)
Theorem encode_length_and_valid b :
  List.length (Base64.encode b) = (4 * ((List.length b + 2) / 3))%nat /\
  is_base64_encoding_v (Base64.encode b) = true /\
  well_formed (Base64.encode b).
Proof.
  split; [apply encode_length|]. split; [apply encode_valid|].
  apply encoding_iff_well_formed, encode_valid.
Qed.

(** C7: the empty byte sequence encodes to the empty string, and the
    empty string is valid input that decodes to the empty byte sequence. *)
Theorem empty_roundtrip :
  Base64.encode [] = [] /\
  is_base64_encoding_v [] = true /\
  Base64.decode [] = Decoded [].
Proof. repeat split. Qed.

(** *** Decoder *)

Lemma index_or_zero_member c : (indexOf c <? 64) = true -> index_or_zero c = indexOf c.
Proof. intros M. unfold index_or_zero. now rewrite member_not_pad. Qed.

Lemma index_or_zero_pad c : is_pad c = true -> index_or_zero c = 0.
Proof. intros P. unfold index_or_zero. now rewrite P. Qed.

(** C2, as stated, fails: the group ["TQ=="] carries two padding
    characters and still decodes to three bytes, not to its first byte
    alone. *)
Lemma decode_padded_group_three_bytes :
  let v := ((index_or_zero "T" << 18) .| (index_or_zero "Q" << 12) .|
            (index_or_zero "=" << 6) .| index_or_zero "=")%char in
  is_base64_encoding_v (chars "TQ==") = true /\
  Base64.decode (chars "TQ==") = Decoded ["M"; zero; zero]%char /\
  Base64.decode (chars "TQ==") <> Decoded [to_char ((v >> 16) .& 0xFF)].
Proof. repeat split. discriminate. Qed.

(** The bytes of a group that is a whole valid string. *)
Lemma decoder_single_group c1 c2 c3 c4 :
  is_base64_encoding_v [c1; c2; c3; c4] = true ->
  let v := (index_or_zero c1 << 18) .| (index_or_zero c2 << 12) .|
           (index_or_zero c3 << 6) .| index_or_zero c4 in
  b64_decoder_impl [c1; c2; c3; c4] =
  Some [ to_char ((v >> 16) .& 0xFF); to_char ((v >> 8) .& 0xFF);
         to_char (v .& 0xFF) ].
Proof.
  intros V v. subst v.
  rewrite encoding_final_group in V.
  apply andb_prop in V. destruct V as (V12 & V34).
  apply andb_prop in V12. destruct V12 as (M1 & M2).
  rewrite (index_or_zero_member c1 M1), (index_or_zero_member c2 M2).
  cbn [b64_decoder_impl].
  destruct (is_pad c3 && is_pad c4) eqn:P34.
  - apply andb_prop in P34. destruct P34 as (P3 & P4).
    rewrite (index_or_zero_pad c3 P3), (index_or_zero_pad c4 P4).
    rewrite Z.shiftl_0_l, !Z.lor_0_r. reflexivity.
  - cbn [orb] in V34. apply andb_prop in V34. destruct V34 as (M3 & V4).
    rewrite (index_or_zero_member c3 M3).
    destruct (is_pad c4) eqn:P4.
    + rewrite (index_or_zero_pad c4 P4), Z.lor_0_r. reflexivity.
    + cbn [orb] in V4. rewrite (index_or_zero_member c4 V4).
      unfold concat. rewrite app_nil_r. reflexivity.
Qed.

(** What follows whole groups in a valid string is valid. *)
Lemma encoding_suffix pre rest :
  is_base64_encoding_v (pre ++ rest) = true -> (List.length pre mod 4 = 0)%nat ->
  is_base64_encoding_v rest = true.
Proof.
  induction pre as [| a | a b | a b c | a b c d pre IH] using groups4_ind;
    intros V L; try discriminate L.
  - exact V.
  - rewrite length_group4, Nat.Div0.mod_add in L.
    cbn [app] in V. destruct (pre ++ rest) as [|r t] eqn:E.
    + apply app_eq_nil in E. destruct E as (_ & ->). reflexivity.
    + rewrite encoding_inner_group in V. apply andb_prop in V.
      destruct V as (_ & V). apply IH; assumption.
Qed.

(** C2, amended: in every valid string, every group of four characters
    (one that starts at a multiple of 4) decodes to the three bytes
    [(v>>16)&0xFF], [(v>>8)&0xFF], [v&0xFF] of its packed 24-bit value
    [v], in which a padding character counts as index 0, whatever the
    number of padding characters; these bytes stand in the output after
    the three bytes of each group before it and before the three bytes
    of each group after it. *)
Theorem decode_group_three_bytes pre c1 c2 c3 c4 post :
  is_base64_encoding_v (pre ++ [c1; c2; c3; c4] ++ post) = true ->
  (List.length pre mod 4 = 0)%nat ->
  let v := (index_or_zero c1 << 18) .| (index_or_zero c2 << 12) .|
           (index_or_zero c3 << 6) .| index_or_zero c4 in
  exists front back,
    Base64.decode (pre ++ [c1; c2; c3; c4] ++ post) =
    Decoded (front ++
             [ to_char ((v >> 16) .& 0xFF); to_char ((v >> 8) .& 0xFF);
               to_char (v .& 0xFF) ] ++ back) /\
    List.length front = (3 * (List.length pre / 4))%nat /\
    List.length back = (3 * (List.length post / 4))%nat.
Proof.
  intros V L v.
  pose proof (encoding_suffix _ _ V L) as Vs.
  destruct (decoder_prefix pre L) as (front & Hfront & Hpre).
  assert (G : exists back,
             b64_decoder_impl ([c1; c2; c3; c4] ++ post) =
             Some ([ to_char ((v >> 16) .& 0xFF); to_char ((v >> 8) .& 0xFF);
                     to_char (v .& 0xFF) ] ++ back) /\
             List.length back = (3 * (List.length post / 4))%nat).
  { destruct post as [|r post].
    - exists []. split; [|reflexivity]. rewrite app_nil_r.
      exact (decoder_single_group c1 c2 c3 c4 Vs).
    - cbn [app] in Vs |- *. rewrite encoding_inner_group in Vs.
      apply andb_prop in Vs. destruct Vs as (Vs & Vpost).
      apply andb_prop in Vs. destruct Vs as (Vs & M4).
      apply andb_prop in Vs. destruct Vs as (Vs & M3).
      apply andb_prop in Vs. destruct Vs as (M1 & M2).
      pose proof Vpost as Lpost. unfold is_base64_encoding_v in Lpost.
      apply andb_prop in Lpost. destruct Lpost as (Lpost & _).
      apply valid_length_iff in Lpost.
      destruct (decoder_total _ Lpost) as (back & Dback & Hback).
      exists back. split; [|exact Hback].
      rewrite decoder_group by (left; discriminate). rewrite Dback.
      subst v. rewrite (index_or_zero_member c1 M1), (index_or_zero_member c2 M2),
        (index_or_zero_member c3 M3), (index_or_zero_member c4 M4).
      reflexivity. }
  destruct G as (back & G & Hback).
  exists front, back. split; [|split; assumption].
  apply (decode_valid _ _ V).
  rewrite Hpre by discriminate. rewrite G. reflexivity.
Qed.

Lemma decode_group_three_bytes_witness :
  exists front back,
    Base64.decode (chars "TWFu" ++ chars "QUJD" ++ chars "TWE=") =
    Decoded (front ++ chars "ABC" ++ back) /\
    List.length front = 3%nat /\ List.length back = 3%nat.
Proof.
  exact (decode_group_three_bytes (chars "TWFu") "Q"%char "U"%char "J"%char "D"%char
           (chars "TWE=") eq_refl eq_refl).
Defined.

(** C1, as stated, fails: one byte comes back as three. *)
Lemma decode_encode_one_byte :
  Base64.encode (chars "M") = chars "TQ==" /\
  Base64.decode (Base64.encode (chars "M")) = Decoded ["M"; zero; zero]%char /\
  Base64.decode (Base64.encode (chars "M")) <> Decoded (chars "M").
Proof. repeat split. discriminate. Qed.

(** C1, amended: decoding the encoding of [b] succeeds and returns [b]
    followed by [(3 - n mod 3) mod 3] zero bytes, [n] the length of [b]:
    exactly [b] when [n] is a multiple of 3, and [b] filled up with zero
    bytes to the next multiple of 3 otherwise. *)
Theorem decode_encode_zero_filled b :
  Base64.decode (Base64.encode b) =
  Decoded (b ++ repeat zero (zero_fill (List.length b))).
Proof.
  apply decode_valid; [apply encode_valid | apply decoder_encode].
Qed.

(** Whole groups come back unchanged. *)
Corollary decode_encode_whole_groups b :
  (List.length b mod 3 = 0)%nat -> Base64.decode (Base64.encode b) = Decoded b.
Proof.
  intros H. apply decode_valid; [apply encode_valid|].
  rewrite decoder_encode. unfold zero_fill.
  rewrite H. cbn [repeat Nat.sub Nat.modulo]. now rewrite app_nil_r.
Qed.


(** C3, as stated, fails: ["TQ=="] is valid, and decoding then encoding
    it gives ["TQAA"]. *)
Lemma reencode_padded_differs :
  is_base64_encoding_v (chars "TQ==") = true /\
  exists out, Base64.decode (chars "TQ==") = Decoded out /\
              Base64.encode out = chars "TQAA" /\
              Base64.encode out <> chars "TQ==".
Proof.
  split; [reflexivity|]. eexists. split; [reflexivity|].
  split; [reflexivity | discriminate].
Qed.

Lemma map_unpad_no_padding s : ~ In pad s -> map unpad s = s.
Proof.
  intros H. rewrite <- (map_id s) at 2. apply map_ext_in. intros c Hc.
  unfold unpad. destruct (is_pad c) eqn:P; [|reflexivity].
  apply is_pad_eq in P. subst c. contradiction.
Qed.

(** C3, amended: for every valid encoded string [s], decoding succeeds
    and encoding the result gives [s] with each trailing padding
    character replaced by ['A'], the character of index 0; it gives [s]
    itself when [s] has no padding character. *)
Theorem encode_decode_unpadded s :
  is_base64_encoding_v s = true ->
  exists out,
    Base64.decode s = Decoded out /\
    Base64.encode out = map unpad s /\
    (~ In pad s -> Base64.encode out = s).
Proof.
  intros V. destruct (reencode s V) as (out & D & E).
  exists out. split; [now apply decode_valid|]. split; [exact E|].
  intros H. unfold Base64.encode. rewrite E. now apply map_unpad_no_padding.
Qed.

Lemma encode_decode_unpadded_witness :
  exists out,
    Base64.decode (chars "TWFu") = Decoded out /\
    Base64.encode out = map unpad (chars "TWFu") /\
    (~ In pad (chars "TWFu") -> Base64.encode out = chars "TWFu").
Proof.
  apply (encode_decode_unpadded (chars "TWFu")). reflexivity.
Defined.

(** C4, as stated, fails: ["AAA!"] has length 4, alphabet members in
    every position but the last and no padding character, and the
    decoder rejects it. *)
Lemma decode_rejects_final_character :
  Base64.decode (chars "AAA!") = InvalidEncoding [] /\
  ~ stated_invalid (chars "AAA!").
Proof.
  split; [reflexivity|].
  intros [H | [(i & c & Hi & Hc & Hm & _) | (i & Hp & _)]].
  - apply H. reflexivity.
  - apply Hm. cbn [chars list_ascii_of_string List.length] in Hi.
    destruct i as [|[|[|i]]]; [| | | lia];
      injection Hc as <-; apply member_iff_index; reflexivity.
  - destruct i as [|[|[|[|i]]]]; try discriminate Hp.
    destruct i; discriminate Hp.
Qed.

(** C4, amended: decoding fails with [InvalidEncoding] exactly when the
    input is not well formed, that is when its length is not a multiple
    of 4 or it is not a run of alphabet members followed by at most two
    padding characters; so a final character that is neither an alphabet
    member nor padding fails as well, and ["A=AA"] fails.  Every other
    input decodes, and a failure carries no decoded bytes. *)
Theorem decode_fails_iff s :
  (Base64.decode s = InvalidEncoding [] <-> ~ well_formed s) /\
  (well_formed s -> exists out, Base64.decode s = Decoded out) /\
  (forall d, Base64.decode s = InvalidEncoding d -> d = []) /\
  Base64.decode (chars "A=AA") = InvalidEncoding [].
Proof.
  pose proof (encoding_iff_well_formed s) as W.
  destruct (is_base64_encoding_v s) eqn:V.
  - destruct (decode_succeeds s V) as (out & D & _).
    repeat split.
    + rewrite D. discriminate.
    + intros H. elim H. now apply W.
    + intros _. now exists out.
    + intros d. rewrite D. discriminate.
  - pose proof (decode_invalid s V) as D.
    repeat split.
    + intros _ H. apply W in H. discriminate H.
    + intros _. exact D.
    + intros H. apply W in H. discriminate H.
    + intros d. rewrite D. intros E. now injection E as <-.
Qed.

Lemma decode_fails_iff_witness :
  ~ well_formed (chars "A=AA") /\ ~ well_formed (chars "AAAAA") /\
  exists out, Base64.decode (chars "TWE=") = Decoded out.
Proof.
  split; [|split].
  - apply (proj1 (proj1 (decode_fails_iff (chars "A=AA")))). reflexivity.
  - apply (proj1 (proj1 (decode_fails_iff (chars "AAAAA")))). reflexivity.
  - apply (proj1 (proj2 (decode_fails_iff (chars "TWE=")))).
    apply encoding_iff_well_formed. reflexivity.
Defined.

(** The bytes a padded final group leaves in the padded positions. *)
Lemma pad1_last_byte i1 i2 i3 :
  ((i1 << 18) .| (i2 << 12) .| (i3 << 6)) .& 0xFF = (i3 .& 0x03) << 6.
Proof. bits_eq. Qed.

Lemma pad2_middle_byte i1 i2 :
  (((i1 << 18) .| (i2 << 12)) >> 8) .& 0xFF = (i2 .& 0x0F) << 4.
Proof. bits_eq. Qed.

Lemma pad2_last_byte i1 i2 : ((i1 << 18) .| (i2 << 12)) .& 0xFF = 0.
Proof. bits_eq. Qed.

Lemma decode_final_group body g out :
  is_base64_encoding_v (body ++ g) = true -> List.length g = 4%nat ->
  b64_decoder_impl g = Some out ->
  exists front, Base64.decode (body ++ g) = Decoded (front ++ out).
Proof.
  intros V Lg D. pose proof V as V0. unfold is_base64_encoding_v in V0.
  apply andb_prop in V0. destruct V0 as (L & _). apply valid_length_iff in L.
  rewrite length_app, Lg in L.
  change 4%nat with (1 * 4)%nat in L. rewrite Nat.Div0.mod_add in L.
  destruct (decoder_prefix body L) as (front & _ & Hfront).
  exists front. apply (decode_valid _ _ V).
  rewrite Hfront by (intros ->; discriminate Lg). now rewrite D.
Qed.

(** C8, as stated, fails in its second half: ["AAB="] and ["AB=="] are
    valid, and the bytes in their padded positions are not all 0. *)
Lemma decode_padded_bytes_nonzero :
  is_base64_encoding_v (chars "AAB=") = true /\
  Base64.decode (chars "AAB=") = Decoded [zero; zero; "@"]%char /\
  is_base64_encoding_v (chars "AB==") = true /\
  Base64.decode (chars "AB==") = Decoded [zero; "016"; zero]%char /\
  "@"%char <> zero /\ "016"%char <> zero.
Proof. repeat split; discriminate. Qed.

(** C8, amended: a valid encoded string of length [4k] decodes to
    exactly [3k] bytes.  A final group [c1 c2 c3 '='] gives three bytes
    of which the last is [(indexOf c3 & 0x03) << 6], and a final group
    [c1 c2 '=' '='] three bytes of which the middle one is
    [(indexOf c2 & 0x0F) << 4] and the last is 0; these are 0 when the
    low bits of the last index are 0. *)
Theorem decode_three_bytes_per_group s :
  is_base64_encoding_v s = true ->
  (exists out, Base64.decode s = Decoded out /\
               List.length out = (3 * (List.length s / 4))%nat) /\
  (forall body c1 c2 c3, s = body ++ [c1; c2; c3; pad] -> c3 <> pad ->
     exists front x y,
       Base64.decode s =
       Decoded (front ++ [x; y; to_char ((indexOf c3 .& 0x03) << 6)])) /\
  (forall body c1 c2, s = body ++ [c1; c2; pad; pad] ->
     exists front x,
       Base64.decode s =
       Decoded (front ++ [x; to_char ((indexOf c2 .& 0x0F) << 4); zero])).
Proof.
  intros V. split; [now apply decode_succeeds|]. split.
  - intros body c1 c2 c3 -> N3.
    assert (P3 : is_pad c3 = false).
    { destruct (is_pad c3) eqn:P; [|reflexivity]. apply is_pad_eq in P. contradiction. }
    assert (G : b64_decoder_impl [c1; c2; c3; pad] =
                Some (string_from_int ((indexOf c1 << 18) .| (indexOf c2 << 12) .|
                                       (indexOf c3 << 6)))).
    { cbn [b64_decoder_impl]. now rewrite P3, is_pad_pad. }
    destruct (decode_final_group body _ _ V eq_refl G) as (front & D).
    exists front. unfold string_from_int in D. rewrite pad1_last_byte in D.
    eauto.
  - intros body c1 c2 ->.
    assert (G : b64_decoder_impl [c1; c2; pad; pad] =
                Some (string_from_int ((indexOf c1 << 18) .| (indexOf c2 << 12))))
      by reflexivity.
    destruct (decode_final_group body _ _ V eq_refl G) as (front & D).
    exists front. unfold string_from_int in D.
    rewrite pad2_middle_byte, pad2_last_byte in D.
    eauto.
Qed.

Lemma decode_three_bytes_per_group_witness :
  exists out, Base64.decode (chars "TWFuTWE=") = Decoded out /\
              List.length out = (3 * (List.length (chars "TWFuTWE=") / 4))%nat.
Proof.
  apply (proj1 (decode_three_bytes_per_group (chars "TWFuTWE=") eq_refl)).
Defined.

(** * Further properties of the code *)

(** ** String literals: [apply_range], [string_builder], [CTSTRING] *)

Lemma apply_range_seq {R : Type} count (F : list nat -> R) indices :
  toolbox.apply_range count F indices = F (seq 0 count ++ indices).
Proof.
  revert indices. induction count as [|n IH]; intros indices.
  - reflexivity.
  - cbn [toolbox.apply_range]. rewrite IH, seq_S, <- app_assoc. reflexivity.
Qed.

Lemma produce_window (pre s post : list ascii) :
  toolbox.produce (pre ++ s ++ post) (seq (List.length pre) (List.length s)) = s.
Proof.
  unfold toolbox.produce. revert pre. induction s as [|a s IH]; intros pre.
  - reflexivity.
  - cbn [List.length seq map app]. rewrite nth_middle. f_equal.
    specialize (IH (pre ++ [a])).
    rewrite length_app, Nat.add_1_r, <- app_assoc in IH. exact IH.
Qed.

Lemma CTSTRING_string_literal s : CTSTRING (string_literal s) = s.
Proof.
  unfold CTSTRING, string_literal. rewrite apply_range_seq, app_nil_r.
  rewrite length_app, Nat.add_1_r. cbn [List.length Nat.sub]. rewrite Nat.sub_0_r.
  exact (produce_window [] s [zero]).
Qed.

(** X1: [apply_range<count, F>] applies [F] to the indices
    [0, 1, ..., count-1], in this order, followed by the indices it was
    given. *)
Theorem apply_range_indices {R : Type} count (F : list nat -> R) indices :
  toolbox.apply_range count F indices = F (seq 0 count ++ indices).
Proof. apply apply_range_seq. Qed.

(** X2: [CTSTRING] of a string literal is the pack of the literal's
    characters, in order and without the terminating NUL; a NUL inside
    the literal is kept, so the pack has [sizeof - 1] characters. *)
Theorem CTSTRING_literal s :
  CTSTRING (string_literal s) = s /\
  List.length (CTSTRING (string_literal s)) = (List.length (string_literal s) - 1)%nat.
Proof.
  rewrite CTSTRING_string_literal. split; [reflexivity|].
  unfold string_literal. rewrite length_app. cbn [List.length]. lia.
Qed.

(** ** The encoder: bounds, shape, composition *)

Lemma dict_checked_fits i : fits 6 i -> dict_checked i = Some (dict i).
Proof.
  intros [Hl Hu]. change (2 ^ 6) with 64 in Hu. unfold dict_checked, dict.
  destruct (Z.ltb_spec i 0) as [H | _]; [lia|].
  apply nth_error_nth'. change (List.length dict_table) with 64%nat. lia.
Qed.

(** X3: the encoder never reads [dict] outside the array, whether
    [char] is unsigned or signed: with every table lookup checked
    against the bounds 0 and 63, and on the promoted values of either
    kind of [char], encoding succeeds on every input and gives the same
    string. *)
Theorem encoder_indices_in_range (val : ascii -> Z) b :
  val = code \/ val = promote_signed ->
  CTBase64Encoder_checked val b = Some (Base64.encode b).
Proof.
  intros Hval.
  assert (E : forall c m, fits 8 m -> val c .& m = code c .& m).
  { intros c m Hm. destruct Hval as [-> | ->]; [reflexivity | now apply mask_signed]. }
  unfold Base64.encode.
  induction b as [| a | a b | a b c l IH] using groups3_ind.
  - reflexivity.
  - cbn [CTBase64Encoder_checked CTBase64Encoder].
    rewrite !E by (unfold fits; cbn; lia).
    rewrite !dict_checked_fits by auto with b64. reflexivity.
  - cbn [CTBase64Encoder_checked CTBase64Encoder].
    rewrite !E by (unfold fits; cbn; lia).
    rewrite !dict_checked_fits by auto with b64. reflexivity.
  - cbn [CTBase64Encoder_checked CTBase64Encoder].
    rewrite !E by (unfold fits; cbn; lia).
    rewrite !dict_checked_fits by auto with b64. rewrite IH. reflexivity.
Qed.

Lemma encoder_indices_in_range_witness :
  CTBase64Encoder_checked promote_signed [to_char 0xFB; to_char 0xFF; to_char 0xFF] =
  Some (chars "@&&&").
Proof.
  apply (encoder_indices_in_range promote_signed [to_char 0xFB; to_char 0xFF; to_char 0xFF]).
  right. reflexivity.
Defined.

(** X4: encoding distributes over concatenation after whole groups: if
    the length of [b1] is a multiple of 3, the encoding of [b1 ++ b2] is
    the encoding of [b1] followed by the encoding of [b2]. *)
Theorem encode_concat b1 b2 :
  (List.length b1 mod 3 = 0)%nat ->
  Base64.encode (b1 ++ b2) = Base64.encode b1 ++ Base64.encode b2.
Proof.
  unfold Base64.encode.
  induction b1 as [| a | a b | a b c l IH] using groups3_ind; intros H;
    try discriminate H.
  - reflexivity.
  - change (List.length (a :: b :: c :: l)) with (3 + List.length l)%nat in H.
    replace (3 + List.length l)%nat with (List.length l + 1 * 3)%nat in H by lia.
    rewrite Nat.Div0.mod_add in H.
    cbn [app CTBase64Encoder concat]. now rewrite (IH H).
Qed.

Lemma encode_concat_witness :
  Base64.encode (chars "Man" ++ chars "M") =
  Base64.encode (chars "Man") ++ Base64.encode (chars "M").
Proof. apply (encode_concat (chars "Man") (chars "M")). reflexivity. Defined.

Lemma member_count_pad c l :
  (indexOf c <? 64) = true ->
  count_occ ascii_dec (c :: l) pad = count_occ ascii_dec l pad.
Proof.
  intros M. apply count_occ_cons_neq. intros E. subst c. discriminate M.
Qed.

Lemma encode_pad_count b :
  count_occ ascii_dec (CTBase64Encoder b) pad = zero_fill (List.length b).
Proof.
  induction b as [| a | a b | a b c l IH] using groups3_ind.
  - reflexivity.
  - cbn [CTBase64Encoder]. rewrite !member_count_pad by (apply dict_member; auto with b64).
    reflexivity.
  - cbn [CTBase64Encoder]. rewrite !member_count_pad by (apply dict_member; auto with b64).
    reflexivity.
  - cbn [CTBase64Encoder concat app].
    rewrite !member_count_pad by (apply dict_member; auto with b64).
    rewrite IH. change (List.length (a :: b :: c :: l)) with (3 + List.length l)%nat.
    now rewrite zero_fill_group.
Qed.

Lemma encode_shape b :
  exists body,
    CTBase64Encoder b = body ++ repeat pad (zero_fill (List.length b)) /\
    Forall alphabet_member body.
Proof.
  induction b as [| a | a b | a b c l IH] using groups3_ind.
  - exists []. split; [reflexivity | constructor].
  - eexists [_; _]. split; [reflexivity|].
    repeat (apply Forall_cons; [apply dict_in_table; auto with b64|]).
    apply Forall_nil.
  - eexists [_; _; _]. split; [reflexivity|].
    repeat (apply Forall_cons; [apply dict_in_table; auto with b64|]).
    apply Forall_nil.
  - destruct IH as (body & E & F).
    eexists (_ :: _ :: _ :: _ :: body). split.
    + cbn [CTBase64Encoder concat app]. rewrite E.
      change (List.length (a :: b :: c :: l)) with (3 + List.length l)%nat.
      rewrite zero_fill_group. reflexivity.
    + repeat (apply Forall_cons; [apply dict_in_table; auto with b64|]). exact F.
Qed.

(** X5: the encoding of [n] bytes is a run of alphabet members followed
    by exactly [(3 - n mod 3) mod 3] padding characters, and these are
    all the padding characters in it. *)
Theorem encode_padding_exact b :
  (exists body,
     Base64.encode b = body ++ repeat pad (zero_fill (List.length b)) /\
     Forall alphabet_member body) /\
  count_occ ascii_dec (Base64.encode b) pad = zero_fill (List.length b).
Proof. split; [apply encode_shape | apply encode_pad_count]. Qed.

Lemma encoder_injective b1 b2 :
  CTBase64Encoder b1 = CTBase64Encoder b2 -> b1 = b2.
Proof.
  intros E.
  pose proof (encode_pad_count b1) as P1. pose proof (encode_pad_count b2) as P2.
  pose proof (decoder_encode b1) as D1. pose proof (decoder_encode b2) as D2.
  rewrite E in P1, D1. rewrite P2 in P1. rewrite D2, P1 in D1.
  injection D1 as D1. now apply app_inv_tail in D1.
Qed.

(** X6: the encoder is injective: two different byte sequences never
    have the same encoding. *)
Theorem encode_injective b1 b2 :
  b1 <> b2 -> Base64.encode b1 <> Base64.encode b2.
Proof. intros N E. apply N. now apply encoder_injective. Qed.

Lemma encode_injective_witness :
  Base64.encode [to_char 0x4D] <> Base64.encode [to_char 0x4D; zero].
Proof. apply encode_injective. discriminate. Defined.

(** ** The decoder: partiality, composition, what it forgets *)

(** X7: [b64_decoder_impl] has a value exactly when the number of
    characters is a multiple of 4, whatever the characters are; the
    validity check implies it, so [decode] never instantiates the
    self-referential primary template. *)
Theorem decoder_value_iff_length s :
  ((exists out, b64_decoder_impl s = Some out) <-> (List.length s mod 4 = 0)%nat) /\
  Base64.decode s <> NoValue.
Proof.
  split; [|apply decode_has_value].
  split.
  - induction s as [| a | a b | a b c | c1 c2 c3 c4 rest IH] using groups4_ind;
      intros (out & D); try discriminate D.
    + reflexivity.
    + rewrite length_group4, Nat.Div0.mod_add.
      destruct rest as [|r rest]; [reflexivity|].
      rewrite decoder_group in D by (left; discriminate).
      destruct (b64_decoder_impl (r :: rest)) as [out'|] eqn:D'; [|discriminate D].
      apply IH. now exists out'.
  - intros L. destruct (decoder_total s L) as (out & D & _). now exists out.
Qed.

Lemma decoder_value_iff_length_witness :
  exists out, b64_decoder_impl (chars "!!==") = Some out.
Proof.
  apply (proj2 (proj1 (decoder_value_iff_length (chars "!!==")))). reflexivity.
Defined.

Lemma decoder_app s1 s2 :
  Forall alphabet_member s1 -> (List.length s1 mod 4 = 0)%nat ->
  b64_decoder_impl (s1 ++ s2) =
  match b64_decoder_impl s1, b64_decoder_impl s2 with
  | Some d1, Some d2 => Some (d1 ++ d2)
  | _, _ => None
  end.
Proof.
  induction s1 as [| a | a b | a b c | c1 c2 c3 c4 rest IH] using groups4_ind;
    intros F L; try discriminate L.
  - cbn [app b64_decoder_impl]. destruct (b64_decoder_impl s2); reflexivity.
  - rewrite length_group4, Nat.Div0.mod_add in L.
    assert (P4 : is_pad c4 = false).
    { inversion F as [|? ? _ F1]; subst. inversion F1 as [|? ? _ F2]; subst.
      inversion F2 as [|? ? _ F3]; subst. inversion F3 as [|? ? M4 _]; subst.
      now apply member_not_pad, member_iff_index. }
    assert (Frest : Forall alphabet_member rest).
    { inversion F as [|? ? _ F1]; subst. inversion F1 as [|? ? _ F2]; subst.
      inversion F2 as [|? ? _ F3]; subst. now inversion F3. }
    cbn [app]. rewrite !decoder_group by (right; exact P4).
    rewrite (IH Frest L).
    destruct (b64_decoder_impl rest), (b64_decoder_impl s2); cbn [option_map];
      [rewrite app_assoc|..]; reflexivity.
Qed.

Lemma encoding_app s1 s2 :
  Forall alphabet_member s1 -> (List.length s1 mod 4 = 0)%nat ->
  is_base64_encoding_v (s1 ++ s2) = is_base64_encoding_v s2.
Proof.
  induction s1 as [| a | a b | a b c | c1 c2 c3 c4 rest IH] using groups4_ind;
    intros F L; try discriminate L.
  - reflexivity.
  - rewrite length_group4, Nat.Div0.mod_add in L.
    inversion F as [|? ? M1 F1]; subst. inversion F1 as [|? ? M2 F2]; subst.
    inversion F2 as [|? ? M3 F3]; subst. inversion F3 as [|? ? M4 F4]; subst.
    cbn [app]. rewrite encoding_member_group by (now apply member_iff_index).
    now apply IH.
Qed.

(** X8: decoding distributes over concatenation after whole groups of
    alphabet members: if [s1] consists of alphabet members, its length is
    a multiple of 4 and [s2] is valid, then [s1], [s2] and [s1 ++ s2] all
    decode, and the bytes of [s1 ++ s2] are those of [s1] followed by
    those of [s2]. *)
Theorem decode_concat s1 s2 :
  Forall alphabet_member s1 -> (List.length s1 mod 4 = 0)%nat ->
  is_base64_encoding_v s2 = true ->
  exists d1 d2,
    Base64.decode s1 = Decoded d1 /\ Base64.decode s2 = Decoded d2 /\
    Base64.decode (s1 ++ s2) = Decoded (d1 ++ d2).
Proof.
  intros F L V2.
  assert (V1 : is_base64_encoding_v s1 = true).
  { rewrite <- (app_nil_r s1). now rewrite encoding_app. }
  assert (V : is_base64_encoding_v (s1 ++ s2) = true) by now rewrite encoding_app.
  destruct (reencode s1 V1) as (d1 & D1 & _).
  destruct (reencode s2 V2) as (d2 & D2 & _).
  exists d1, d2. repeat split; try now apply decode_valid.
  apply (decode_valid _ _ V). now rewrite decoder_app, D1, D2.
Qed.

Lemma decode_concat_witness :
  exists d1 d2,
    Base64.decode (chars "TWFu") = Decoded d1 /\
    Base64.decode (chars "TWE=") = Decoded d2 /\
    Base64.decode (chars "TWFu" ++ chars "TWE=") = Decoded (d1 ++ d2).
Proof.
  apply (decode_concat (chars "TWFu") (chars "TWE=")).
  - repeat (apply Forall_cons; [apply member_iff_index; reflexivity|]).
    apply Forall_nil.
  - reflexivity.
  - reflexivity.
Defined.

Lemma zero_fill_whole k : zero_fill (3 * k) = 0%nat.
Proof.
  unfold zero_fill. rewrite Nat.mul_comm, Nat.Div0.mod_mul. reflexivity.
Qed.

Lemma decode_encode_decoded s out :
  is_base64_encoding_v s = true -> Base64.decode s = Decoded out ->
  Base64.decode (Base64.encode out) = Decoded out.
Proof.
  intros V D. destruct (decode_succeeds s V) as (out' & D' & Hl).
  rewrite D in D'. injection D' as <-.
  apply decode_valid; [apply encode_valid|].
  rewrite decoder_encode, Hl, zero_fill_whole. cbn [repeat]. now rewrite app_nil_r.
Qed.

(** X9: on the bytes the decoder produces, decoding undoes encoding: if
    a valid string decodes to [out], then the encoding of [out] decodes
    to [out] again. *)
Theorem decode_encode_of_decoded s out :
  is_base64_encoding_v s = true -> Base64.decode s = Decoded out ->
  Base64.decode (Base64.encode out) = Decoded out.
Proof. apply decode_encode_decoded. Qed.

Lemma decode_encode_of_decoded_witness :
  Base64.decode (Base64.encode [to_char 0x4D; zero; zero]) =
  Decoded [to_char 0x4D; zero; zero].
Proof.
  apply (decode_encode_of_decoded (chars "TQ==")); reflexivity.
Defined.

Lemma decode_unpad s :
  is_base64_encoding_v s = true -> Base64.decode (map unpad s) = Base64.decode s.
Proof.
  intros V. destruct (reencode s V) as (out & D & E).
  pose proof (decode_valid s out V D) as Ds.
  rewrite Ds, <- E. exact (decode_encode_decoded s out V Ds).
Qed.

(** X10: the decoder forgets the padding and nothing else: two valid
    strings decode to the same bytes exactly when they are equal once
    each padding character is read as ['A'], the character of index 0. *)
Theorem decode_equal_iff s1 s2 :
  is_base64_encoding_v s1 = true -> is_base64_encoding_v s2 = true ->
  (Base64.decode s1 = Base64.decode s2 <-> map unpad s1 = map unpad s2).
Proof.
  intros V1 V2. split.
  - intros E.
    destruct (reencode s1 V1) as (o1 & D1 & E1).
    destruct (reencode s2 V2) as (o2 & D2 & E2).
    rewrite (decode_valid s1 o1 V1 D1), (decode_valid s2 o2 V2 D2) in E.
    injection E as <-. now rewrite <- E1, <- E2.
  - intros E. rewrite <- (decode_unpad s1 V1), <- (decode_unpad s2 V2).
    now rewrite E.
Qed.

Lemma decode_equal_iff_witness :
  Base64.decode (chars "TQ==") = Base64.decode (chars "TQAA").
Proof.
  apply (proj2 (decode_equal_iff (chars "TQ==") (chars "TQAA") eq_refl eq_refl)).
  reflexivity.
Defined.

(** ** The alphabet table and [indexOf] *)

(** X11: the test [indexOf(c) < 64] of the validity check is membership
    in the table, and for a member [dict[indexOf(c)]] is [c] again. *)
Theorem dict_indexOf_member c :
  (In c dict_table <-> indexOf c < 64) /\
  (In c dict_table -> dict (indexOf c) = c).
Proof.
  split.
  - rewrite member_iff_index. apply Z.ltb_lt.
  - intros H. now apply dict_indexOf, member_iff_index.
Qed.

Lemma dict_indexOf_member_witness : dict (indexOf "&"%char) = "&"%char.
Proof.
  apply (proj2 (dict_indexOf_member "&"%char)).
  apply member_iff_index. reflexivity.
Defined.

(** ** The run-time macros: [data] read as a C string *)







(** ** Ranges: no truncation, no overflow *)

Lemma indexOf_value_range v : 0 <= indexOf_value v <= 64.
Proof.
  unfold indexOf_value, index_type. change (code "A"%char) with 65.
  change (code "Z"%char) with 90. change (code "a"%char) with 97.
  change (code "z"%char) with 122. change (code "0"%char) with 48.
  change (code "9"%char) with 57.
  destruct (Z.leb_spec 65 v), (Z.leb_spec v 90); cbn [andb];
    [rewrite Z.mod_small; lia | ..];
    (destruct (Z.leb_spec 97 v), (Z.leb_spec v 122); cbn [andb];
     [rewrite Z.mod_small; lia | ..]);
    (destruct (Z.leb_spec 48 v), (Z.leb_spec v 57); cbn [andb];
     [rewrite Z.mod_small; lia | ..]);
    destruct (v =? code "@"%char), (v =? code "&"%char); cbn; lia.
Qed.

Lemma indexOf_unconverted_range v : 0 <= indexOf_unconverted v <= 64.
Proof.
  unfold indexOf_unconverted. change (code "A"%char) with 65.
  change (code "Z"%char) with 90. change (code "a"%char) with 97.
  change (code "z"%char) with 122. change (code "0"%char) with 48.
  change (code "9"%char) with 57.
  destruct (Z.leb_spec 65 v), (Z.leb_spec v 90); cbn [andb]; [lia | ..];
    (destruct (Z.leb_spec 97 v), (Z.leb_spec v 122); cbn [andb]; [lia | ..]);
    (destruct (Z.leb_spec 48 v), (Z.leb_spec v 57); cbn [andb]; [lia | ..]);
    destruct (v =? code "@"%char), (v =? code "&"%char); lia.
Qed.

Lemma int_shl_index c n :
  0 <= n <= 18 -> int_shl (indexOf c) n = Some (indexOf c << n).
Proof.
  intros Hn. unfold int_shl. pose proof (indexOf_value_range (code c)) as R.
  fold (indexOf c) in R.
  assert (B : indexOf c << n < 2 ^ 31).
  { rewrite Z.shiftl_mul_pow2 by lia.
    assert (P : 0 < 2 ^ n <= 2 ^ 18)
      by (split; [apply Z.pow_pos_nonneg; lia | apply Z.pow_le_mono_r; lia]).
    change (2 ^ 18) with 262144 in P. change (2 ^ 31) with 2147483648. nia. }
  destruct (Z.leb_spec 0 (indexOf c)); [|lia].
  destruct (Z.ltb_spec (indexOf c << n) (2 ^ 31)); [reflexivity | lia].
Qed.

(** X14: the range conditions of the decoder always hold.  The
    expression [indexOf] converts to [uint8_t] is between 0 and 64 for
    every integer value of the character, so the conversion changes
    nothing; and with every left shift checked against the range of
    [int], the decoder gives exactly what it gives unchecked, on every
    input and in all three specialisations: no shift overflows. *)
Theorem index_and_pack_ranges :
  (forall v, indexOf_value v = index_type (indexOf_unconverted v) /\
             0 <= indexOf_unconverted v <= 64 /\
             indexOf_value v = indexOf_unconverted v) /\
  (forall chars, b64_decoder_impl_checked chars = b64_decoder_impl chars).
Proof.
  split.
  - intros v. pose proof (indexOf_unconverted_range v) as R.
    split; [reflexivity|]. split; [exact R|].
    change (indexOf_value v) with (index_type (indexOf_unconverted v)).
    unfold index_type. apply Z.mod_small. lia.
  - intros chars.
    induction chars as [| a | a b | a b c | c1 c2 c3 c4 rest IH] using groups4_ind;
      try reflexivity.
    cbn [b64_decoder_impl_checked b64_decoder_impl].
    rewrite !int_shl_index by lia. cbn [int_or option_map]. rewrite IH.
    destruct rest; reflexivity.
Qed.
